(** * Stuvify Jobs API: a shallow embedding of [main.py] and [schemas.py]

    The request handlers of [main.py] ([serialize_doc], [test_database],
    [list_jobs], [seed_jobs], [apply]) are embedded as functions in a
    state-and-exception monad over a [World] that holds the module-level
    store handle [db], the process environment and the outcome of the
    coming round-trips to the store.  Documents are Python dicts, embedded
    as [gmap string value]. *)

From Stdlib Require Import Ascii String.
From stdpp Require Import base strings gmap list pretty.

Open Scope string_scope.

(** ** Python values and documents *)

(** A [bson.ObjectId] is a 12-byte value; it is embedded as the number
    its 24 hexadecimal digits denote. *)
Definition oid := N.

Inductive value :=
| VNone
| VBool (b : bool)
| VStr (s : string)
| VList (l : list string)
| VOid (o : oid).

#[global] Instance value_eq_dec : EqDecision value.
Proof. solve_decision. Defined.

(** A document (a Python [dict] with string keys). *)
Abbreviation doc := (gmap string value).

(** *** Hexadecimal rendering and parsing of identities *)

Definition hex_digit (n : N) : ascii :=
  match n with
  | 0 => "0" | 1 => "1" | 2 => "2" | 3 => "3" | 4 => "4"
  | 5 => "5" | 6 => "6" | 7 => "7" | 8 => "8" | 9 => "9"
  | 10 => "a" | 11 => "b" | 12 => "c" | 13 => "d" | 14 => "e"
  | _ => "f"
  end%N%char.

Definition hex_value (c : ascii) : option N :=
  let n := N_of_ascii c in
  if ((48 <=? n) && (n <=? 57))%N then Some (n - 48)%N
  else if ((97 <=? n) && (n <=? 102))%N then Some (n - 87)%N
  else if ((65 <=? n) && (n <=? 70))%N then Some (n - 55)%N
  else None.

Fixpoint hex_digits (k : nat) (n : N) (acc : string) : string :=
  match k with
  | O => acc
  | S k' => hex_digits k' (n / 16)%N (String (hex_digit (n mod 16)%N) acc)
  end.

(** [str(oid)]: the 24 lower-case hexadecimal digits of the identity. *)
Definition str_oid (o : oid) : string := hex_digits 24 o "".

Fixpoint parse_hex (s : string) (acc : N) : option N :=
  match s with
  | EmptyString => Some acc
  | String c s' =>
      match hex_value c with
      | Some d => parse_hex s' (16 * acc + d)%N
      | None => None
      end
  end.

(** *** [repr] and [str] of values *)

Fixpoint contains_char (c : ascii) (s : string) : bool :=
  match s with
  | EmptyString => false
  | String c' s' => if Ascii.eqb c c' then true else contains_char c s'
  end.

Definition repr_char (quote c : ascii) : string :=
  let n := N_of_ascii c in
  if Ascii.eqb c "\"%char then "\\"
  else if Ascii.eqb c quote then String "\"%char (String c "")
  else if (n =? 10)%N then "\n"
  else if (n =? 13)%N then "\r"
  else if (n =? 9)%N then "\t"
  else if ((n <? 32) || (n =? 127))%N
       then "\x" ++ String (hex_digit (n / 16)%N) (String (hex_digit (n mod 16)%N) "")
  else String c "".

Fixpoint repr_chars (quote : ascii) (s : string) : string :=
  match s with
  | EmptyString => ""
  | String c s' => repr_char quote c ++ repr_chars quote s'
  end.

Definition double_quote : ascii := ascii_of_N 34.

(** [repr] of a Python [str]: single quotes unless the text holds a single
    quote and no double quote. *)
Definition repr_str (s : string) : string :=
  let quote : ascii :=
    if contains_char "'"%char s && negb (contains_char double_quote s)
    then double_quote else "'"%char in
  String quote (repr_chars quote s ++ String quote "").

Fixpoint join (sep : string) (l : list string) : string :=
  match l with
  | [] => ""
  | [x] => x
  | x :: l' => x ++ sep ++ join sep l'
  end.

(** Python's [str(v)]. *)
Definition py_str (v : value) : string :=
  match v with
  | VNone => "None"
  | VBool true => "True"
  | VBool false => "False"
  | VStr s => s
  | VList l => "[" ++ join ", " (repr_str <$> l) ++ "]"
  | VOid o => str_oid o
  end.

(** ** Exceptions and the handler monad *)

Inductive exn :=
| HTTPException (status_code : nat) (detail : string)
| InvalidId (msg : string)
| ValidationError (msg : string)
| TypeError (msg : string)
| NotImplementedError (msg : string)
| StoreError (msg : string).

(** [str(e)] *)
Definition str_exn (e : exn) : string :=
  match e with
  | HTTPException c d => pretty c ++ ": " ++ d
  | InvalidId m | ValidationError m | TypeError m | NotImplementedError m
  | StoreError m => m
  end.

Inductive Result (A : Type) :=
| Ok (a : A)
| Raise (e : exn).
Arguments Ok {A} a.
Arguments Raise {A} e.

(** The database behind the handle [db]: its name, what truth-testing the
    handle gives ([bool(db)], which the client library decides: a plain
    object is true, a class may answer otherwise or refuse the test by
    raising), its named collections (each a list of documents in insertion
    order) and the next identity the store will assign. *)
Record Database := {
  db_name : string;
  db_bool : Result bool;
  db_collections : gmap string (list doc);
  db_next_id : oid;
}.

(** What a handler can see and change.
    - [db]: the module-level handle imported from [database]; [None] when
      no store is configured.
    - [environ]: [os.environ].
    - [faults]: the outcome of the coming round-trips to the store server,
      in order; [Some msg] makes the round-trip raise with text [msg],
      [None] (or an exhausted list) lets it succeed. *)
Record World := {
  db : option Database;
  environ : gmap string string;
  faults : list (option string);
}.

Definition M (A : Type) : Type := World → Result A * World.

#[global] Instance M_ret : MRet M := λ A a w, (Ok a, w).
#[global] Instance M_bind : MBind M := λ A B f m w,
  match m w with
  | (Ok a, w') => f a w'
  | (Raise e, w') => (Raise e, w')
  end.

Definition raise {A} (e : exn) : M A := λ w, (Raise e, w).

(** [try: body except Exception as e: handler(e)].  The handler runs in
    the world the body left behind: nothing is rolled back. *)
Definition try_except {A} (body : M A) (handler : exn → M A) : M A := λ w,
  match body w with
  | (Ok a, w') => (Ok a, w')
  | (Raise e, w') => handler e w'
  end.

Definition get_db : M (option Database) := λ w, (Ok (db w), w).

Definition put_db (d : Database) : M unit := λ w,
  (Ok (), {| db := Some d; environ := environ w; faults := faults w |}).

(** [os.getenv(k)] *)
Definition getenv (k : string) : M (option string) := λ w, (Ok (environ w !! k), w).

(** One round-trip to the store server. *)
Definition roundtrip : M unit := λ w,
  match faults w with
  | [] => (Ok (), w)
  | None :: fs => (Ok (), {| db := db w; environ := environ w; faults := fs |})
  | Some msg :: fs =>
      (Raise (StoreError msg), {| db := db w; environ := environ w; faults := fs |})
  end.

Definition lift {A} (r : Result A) : M A := λ w, (r, w).

(** ** The store client ([pymongo]) and identities ([bson]) *)

(** Equality filter: a document matches when it carries every key of the
    filter with the same value. *)
Definition matches (filter d : doc) : bool := bool_decide (filter ⊆ d).

Definition docs_of (d : Database) (coll : string) : list doc :=
  default [] (db_collections d !! coll).

(** [db[coll]]: subscripting the handle, which fails on [None].  The
    collection is represented by the documents it holds. *)
Definition db_getitem (coll : string) : M (list doc) :=
  d ← get_db;
  match d with
  | None => raise (TypeError "'NoneType' object is not subscriptable")
  | Some d => mret (docs_of d coll)
  end.

(** [bool(db)], as in [... if db else ...]: [None] is false, a handle
    answers as its class says. *)
Definition bool_db : M bool :=
  d ← get_db;
  match d with
  | None => mret false
  | Some d => lift (db_bool d)
  end.

(** [collection.count_documents(filter)] *)
Definition count_documents (collection : list doc) (filter : doc) : M nat :=
  roundtrip;; mret (length (List.filter (matches filter) collection)).

(** [collection.find_one(filter)] *)
Definition find_one (collection : list doc) (filter : doc) : M (option doc) :=
  roundtrip;; mret (head (List.filter (matches filter) collection)).

(** [db.list_collection_names()] *)
Definition list_collection_names (d : Database) : M (list string) :=
  roundtrip;; mret ((map_to_list (db_collections d)).*1).

(** [ObjectId(s)] accepts a string of 24 hexadecimal digits. *)
Definition ObjectId (s : string) : Result oid :=
  let invalid := InvalidId (repr_str s ++
    " is not a valid ObjectId, it must be a 12-byte input or a 24-character hex string") in
  if (String.length s =? 24)%nat then
    match parse_hex s 0 with
    | Some o => Ok o
    | None => Raise invalid
    end
  else Raise invalid.

(** The database after the store has taken one new document into a
    collection under the next free identity. *)
Definition insert_document (d : Database) (coll : string) (data : doc) : Database :=
  {| db_name := db_name d;
     db_bool := db_bool d;
     db_collections :=
       <[coll := (docs_of d coll ++ [<["_id" := VOid (db_next_id d)]> data])%list]>
         (db_collections d);
     db_next_id := (db_next_id d + 1)%N |}.

(** ** [schemas.py] *)

Inductive EmploymentType := FullTime | PartTime | Contract | Internship | Freelance.

Definition EmploymentType_str (t : EmploymentType) : string :=
  match t with
  | FullTime => "Full-time"
  | PartTime => "Part-time"
  | Contract => "Contract"
  | Internship => "Internship"
  | Freelance => "Freelance"
  end.

Record Job := {
  title : string;
  department : string;
  location : string;
  type : EmploymentType;
  description : string;
  requirements : list string;
  featured : bool;
}.

Record Application := {
  job_id : string;
  name : string;
  email : string;
  portfolio : option string;
  resume_url : option string;
  cover_letter : option string;
}.

(** A pydantic model serialises to a document. *)
Class BaseModel (A : Type) := model_dump : A → doc.

Definition optional_str (s : option string) : value :=
  match s with
  | Some s => VStr s
  | None => VNone
  end.

#[global] Instance Job_model : BaseModel Job := λ j,
  <["title" := VStr (title j)]> (
  <["department" := VStr (department j)]> (
  <["location" := VStr (location j)]> (
  <["type" := VStr (EmploymentType_str (type j))]> (
  <["description" := VStr (description j)]> (
  <["requirements" := VList (requirements j)]> (
  <["featured" := VBool (featured j)]> ∅)))))).

#[global] Instance Application_model : BaseModel Application := λ a,
  <["job_id" := VStr (job_id a)]> (
  <["name" := VStr (name a)]> (
  <["email" := VStr (email a)]> (
  <["portfolio" := optional_str (portfolio a)]> (
  <["resume_url" := optional_str (resume_url a)]> (
  <["cover_letter" := optional_str (cover_letter a)]> ∅))))).

(** pydantic's field validators: each returns the validated text, or
    [None] when the input is refused; [validation_error_str] is the text
    of the [ValidationError] raised for a model and its refused fields. *)
Class Pydantic := {
  EmailStr : string → option string;
  HttpUrl : string → option string;
  validation_error_str : string → list string → string;
}.

(** ** [database.py] *)

(** Modelled from the spec: [database.get_documents], whose module is not
    among the sources.  4.1: it returns all records in the named collection
    whose fields exactly match every key/value pair in the filter (an empty
    filter returns all records), in the store's order, and fails with a
    store error when the store cannot be reached. *)
Definition get_documents (collection_name : string) (filter : doc) : M (list doc) :=
  d ← get_db;
  match d with
  | None => raise (StoreError "Database not available")
  | Some d =>
      roundtrip;;
      mret (List.filter (matches filter) (docs_of d collection_name))
  end.

(** Modelled from the spec: [database.create_document], whose module is
    not among the sources.  4.1: it serialises the validated record,
    inserts it into the named collection (a single insert) and returns the
    newly assigned identity as a string, or fails with a store error. *)
Definition create_document `{BaseModel A} (collection_name : string) (data : A) : M string :=
  d ← get_db;
  match d with
  | None => raise (StoreError "Database not available")
  | Some d =>
      roundtrip;;
      put_db (insert_document d collection_name (model_dump data));;
      mret (str_oid (db_next_id d))
  end.

(** ** [main.py] *)

(** Truth value of an [Optional[str]]: [None] and the empty string are
    false. *)
Definition truthy (s : option string) : bool :=
  match s with
  | Some s => negb (String.eqb s "")
  | None => false
  end.

Definition serialize_doc (d : option doc) : option doc :=
  match d with
  | None => None
  | Some d =>
      match d !! "_id" with
      | Some v => Some (<["id" := VStr (py_str v)]> (delete "_id" d))
      | None => Some d
      end
  end.

(** *** [GET /test] *)

Record Diagnostic := {
  backend : string;
  database : string;
  database_url : option string;
  database_name : option string;
  connection_status : string;
  collections : list string;
}.

Definition set_database (s : string) (r : Diagnostic) : Diagnostic :=
  {| backend := backend r; database := s; database_url := database_url r;
     database_name := database_name r; connection_status := connection_status r;
     collections := collections r |}.

Definition set_database_url (s : string) (r : Diagnostic) : Diagnostic :=
  {| backend := backend r; database := database r; database_url := Some s;
     database_name := database_name r; connection_status := connection_status r;
     collections := collections r |}.

Definition set_database_name (s : string) (r : Diagnostic) : Diagnostic :=
  {| backend := backend r; database := database r; database_url := database_url r;
     database_name := Some s; connection_status := connection_status r;
     collections := collections r |}.

Definition set_connection_status (s : string) (r : Diagnostic) : Diagnostic :=
  {| backend := backend r; database := database r; database_url := database_url r;
     database_name := database_name r; connection_status := s;
     collections := collections r |}.

Definition set_collections (l : list string) (r : Diagnostic) : Diagnostic :=
  {| backend := backend r; database := database r; database_url := database_url r;
     database_name := database_name r; connection_status := connection_status r;
     collections := l |}.

Definition initial_response : Diagnostic :=
  {| backend := "✅ Running";
     database := "❌ Not Available";
     database_url := None;
     database_name := None;
     connection_status := "Not Connected";
     collections := [] |}.

(** [str(e)[:50]] *)
Definition str50 (e : exn) : string := substring 0 50 (str_exn e).

(** The statements of the outer [try] block.  Only the enumeration of the
    collections can raise, and it sits in the inner [try].  A handle has a
    [name], so [db.name if hasattr(db, 'name') else ...] is [db_name]. *)
Definition probe_database (response : Diagnostic) : M Diagnostic :=
  d ← get_db;
  match d with
  | Some d =>
      let response := set_database "✅ Available" response in
      let response := set_database_url "✅ Configured" response in
      let response := set_database_name (db_name d) response in
      let response := set_connection_status "Connected" response in
      try_except
        (collections ← list_collection_names d;
         let response := set_collections (take 10 collections) response in
         mret (set_database "✅ Connected & Working" response))
        (λ e, mret (set_database ("⚠️  Connected but Error: " ++ str50 e) response))
  | None => mret (set_database "⚠️  Available but not initialized" response)
  end.

Definition test_database : M Diagnostic :=
  let response := initial_response in
  response ← try_except (probe_database response)
                (λ e, mret (set_database ("❌ Error: " ++ str50 e) response));
  url ← getenv "DATABASE_URL";
  let response :=
    set_database_url (if truthy url then "✅ Set" else "❌ Not Set") response in
  name ← getenv "DATABASE_NAME";
  let response :=
    set_database_name (if truthy name then "✅ Set" else "❌ Not Set") response in
  mret response.

(** *** [GET /api/jobs] *)

(** [if v: filter_query[k] = v] *)
Definition add_filter (k : string) (v : option string) (filter_query : doc) : doc :=
  match v with
  | Some s => if truthy v then <[k := VStr s]> filter_query else filter_query
  | None => filter_query
  end.

Definition build_filter_query (department type location : option string) : doc :=
  let filter_query := ∅ in
  let filter_query := add_filter "department" department filter_query in
  let filter_query := add_filter "type" type filter_query in
  let filter_query := add_filter "location" location filter_query in
  filter_query.

Definition list_jobs (department type location : option string) : M (list (option doc)) :=
  let filter_query := build_filter_query department type location in
  try_except
    (jobs ← get_documents "job" filter_query;
     mret ((λ j, serialize_doc (Some j)) <$> jobs))
    (λ e, raise (HTTPException 500 (str_exn e))).

(** *** [POST /api/jobs/seed] *)

Record SeedResponse := {
  inserted : nat;
  message : option string;
}.

Definition samples : list Job := [
  {| title := "Frontend Developer";
     department := "Engineering";
     location := "Remote";
     type := FullTime;
     description := "Build immersive UIs with React and Three.js for Stuvify.";
     requirements := ["3+ years React"; "Experience with R3F/Three.js"; "Strong UI skills"];
     featured := true |};
  {| title := "3D Designer";
     department := "Design";
     location := "Hybrid - SF";
     type := Contract;
     description := "Design GLTF assets and futuristic scenes for our career hub.";
     requirements := ["GLTF/GLB workflow"; "Blender/C4D"; "Understanding of web performance"];
     featured := false |};
  {| title := "Growth Marketer";
     department := "Marketing";
     location := "Remote";
     type := PartTime;
     description := "Drive campaigns and partnerships for student hiring.";
     requirements := ["Lifecycle marketing"; "Content strategy"; "Analytics"];
     featured := false |}
].

(** [for job in jobs: create_document("job", job); inserted += 1] *)
Fixpoint insert_all (jobs : list Job) (inserted : nat) : M nat :=
  match jobs with
  | [] => mret inserted
  | job :: jobs' =>
      create_document "job" job;;
      insert_all jobs' (inserted + 1)
  end.

Definition seed_jobs : M SeedResponse :=
  try_except
    (truth ← bool_db;
     existing ← (if truth : bool
                 then collection ← db_getitem "job"; count_documents collection ∅
                 else mret 0);
     if (0 <? existing)%nat
     then mret {| inserted := 0; message := Some "Jobs already exist" |}
     else
       inserted ← insert_all samples 0;
       mret {| inserted := inserted; message := None |})
    (λ e, raise (HTTPException 500 (str_exn e))).

(** *** [POST /api/apply] *)

Record ApplyPayload := {
  payload_job_id : string;
  payload_name : string;
  payload_email : string;
  payload_portfolio : option string;
  payload_resume_url : option string;
  payload_cover_letter : option string;
}.

Record ApplyResponse := {
  status : string;
  application_id : string;
}.

(** [not job] for the result of [find_one]: [None] and the empty dict are
    false. *)
Definition not_job (job : option doc) : bool :=
  match job with
  | None => true
  | Some d => bool_decide (d = ∅)
  end.

Section Apply.
Context `{Pydantic}.

(** Validation of an [Optional[HttpUrl]] field: the refused field's name,
    or the validated value. *)
Definition validate_optional_url (field : string) (v : option string)
    : list string + option string :=
  match v with
  | None => inr None
  | Some s =>
      match HttpUrl s with
      | Some u => inr (Some u)
      | None => inl [field]
      end
  end.

Definition validate_email (field : string) (v : string) : list string + string :=
  match EmailStr v with
  | Some e => inr e
  | None => inl [field]
  end.

Definition refused {A} (r : list string + A) : list string :=
  match r with
  | inl fields => fields
  | inr _ => []
  end.

(** [Application(job_id=..., name=..., email=..., portfolio=...,
    resume_url=..., cover_letter=...)]: every field is validated and one
    [ValidationError] reports all refused fields. *)
Definition Application_new (job_id name email : string)
    (portfolio resume_url cover_letter : option string) : Result Application :=
  match validate_email "email" email,
        validate_optional_url "portfolio" portfolio,
        validate_optional_url "resume_url" resume_url with
  | inr e, inr p, inr r =>
      Ok {| job_id := job_id; name := name; email := e; portfolio := p;
            resume_url := r; cover_letter := cover_letter |}
  | e, p, r =>
      Raise (ValidationError
               (validation_error_str "Application"
                  (refused e ++ refused p ++ refused r)%list))
  end.

(** The [Application] record [apply] builds from its payload. *)
Definition submitted (payload : ApplyPayload) : Result Application :=
  Application_new
    (payload_job_id payload)
    (payload_name payload)
    (payload_email payload)
    (payload_portfolio payload)
    (payload_resume_url payload)
    (payload_cover_letter payload).

Definition apply (payload : ApplyPayload) : M ApplyResponse :=
  try_except
    (collection ← db_getitem "job";
     o ← lift (ObjectId (payload_job_id payload));
     job ← find_one collection {["_id" := VOid o]};
     if not_job job
     then raise (HTTPException 404 "Job not found")
     else mret ())
    (λ _, raise (HTTPException 400 "Invalid job id"));;
  try_except
    (app_doc ← lift (submitted payload);
     inserted_id ← create_document "application" app_doc;
     mret {| status := "ok"; application_id := inserted_id |})
    (λ e, raise (HTTPException 500 (str_exn e))).

End Apply.

(** ** Concrete worlds and requests *)

(** A small validator set with which the handlers can be run: URLs start
    with [http://] or [https://] and have something after it, e-mail
    addresses hold an [@] with text on both sides. *)
Definition has_prefix_and_more (p s : string) : bool :=
  String.prefix p s && (String.length p <? String.length s)%nat.

Fixpoint at_inside (s : string) : bool :=
  match s with
  | String _ (String c rest as s') =>
      (Ascii.eqb c "@"%char && negb (String.eqb rest "")) || at_inside s'
  | _ => false
  end.

Definition sample_pydantic : Pydantic :=
  {| EmailStr := λ s, if at_inside s then Some s else None;
     HttpUrl := λ s,
       if has_prefix_and_more "http://" s || has_prefix_and_more "https://" s
       then Some s else None;
     validation_error_str := λ model fields,
       "validation error for " ++ model ++ ": " ++ join ", " fields |}.

Definition empty_database : Database :=
  {| db_name := "stuvify"; db_bool := Ok true; db_collections := ∅; db_next_id := 1%N |}.

Definition world_of (d : option Database) (fs : list (option string)) : World :=
  {| db := d; environ := ∅; faults := fs |}.

Definition sample_payload (job portfolio : string) : ApplyPayload :=
  {| payload_job_id := job;
     payload_name := "Ada";
     payload_email := "ada@example.org";
     payload_portfolio := Some portfolio;
     payload_resume_url := None;
     payload_cover_letter := None |}.

(** A store that fails on its third round-trip. *)
Definition flaky_world : World :=
  world_of (Some empty_database) [None; None; Some "connection reset"].

(** A handle whose class refuses truth testing. *)
Definition strict_database : Database :=
  {| db_name := "stuvify";
     db_bool := Raise (NotImplementedError "no truth value");
     db_collections := ∅;
     db_next_id := 1%N |}.

(** ** Vocabulary of the statements *)

Definition no_fault (f : option string) : bool :=
  match f with
  | None => true
  | Some _ => false
  end.

(** The next [n] round-trips to the store succeed. *)
Definition healthy (n : nat) (w : World) : bool :=
  forallb no_fault (take n (faults w)).

(** The database after the store has taken the given jobs, in order. *)
Definition store_jobs (d : Database) (jobs : list Job) : Database :=
  fold_left (λ d job, insert_document d "job" (model_dump job)) jobs d.

(** [empty_database] after one seed call with a healthy store: the three
    sample jobs under the identities 1, 2 and 3. *)
Definition seeded_database : Database := store_jobs empty_database samples.

(** The job a well-formed identity string denotes in a database. *)
Definition existing_job (d : Database) (s : string) : option doc :=
  match ObjectId s with
  | Ok o => head (List.filter (matches {["_id" := VOid o]}) (docs_of d "job"))
  | Raise _ => None
  end.

(** The job lookup of [apply] lets the request through when the handle is
    configured, the identity denotes a stored job and the store answers. *)
Definition passes_lookup (payload : ApplyPayload) (w : World) : Prop :=
  ∃ d j, db w = Some d
    ∧ existing_job d (payload_job_id payload) = Some j
    ∧ healthy 1 w = true.

(** The constraint one query parameter puts on a job: a non-empty value
    must be the job's field, [None] and the empty string ask nothing. *)
Definition field_ok (k : string) (v : option string) (j : doc) : bool :=
  match v with
  | Some s => if truthy v then bool_decide (j !! k = Some (VStr s)) else true
  | None => true
  end.

Definition selects (department type location : option string) (j : doc) : bool :=
  field_ok "department" department j
  && field_ok "type" type j
  && field_ok "location" location j.

(** Selection as the specification words it: every supplied value, the
    empty string included, must equal the job's field. *)
Definition spec_field_ok (k : string) (v : option string) (j : doc) : bool :=
  match v with
  | Some s => bool_decide (j !! k = Some (VStr s))
  | None => true
  end.

Definition spec_selects (department type location : option string) (j : doc) : bool :=
  spec_field_ok "department" department j
  && spec_field_ok "type" type j
  && spec_field_ok "location" location j.

(** * Properties *)

(** ** Running the monad *)

Lemma bind_run {A B} (m : M A) (f : A → M B) (w : World) :
  (m ≫= f) w = match m w with
               | (Ok a, w') => f a w'
               | (Raise e, w') => (Raise e, w')
               end.
Proof. reflexivity. Qed.

Lemma roundtrip_db (w : World) : db (roundtrip w).2 = db w.
Proof. unfold roundtrip. destruct (faults w) as [|[msg|] fs]; reflexivity. Qed.

Lemma roundtrip_environ (w : World) : environ (roundtrip w).2 = environ w.
Proof. unfold roundtrip. destruct (faults w) as [|[msg|] fs]; reflexivity. Qed.

Lemma roundtrip_healthy (n : nat) (w : World) :
  healthy (S n) w = true →
  (roundtrip w).1 = Ok () ∧ healthy n (roundtrip w).2 = true.
Proof.
  unfold healthy, roundtrip.
  destruct (faults w) as [|[msg|] fs] eqn:Hf; simpl; intros Hh.
  - split; [reflexivity|]. by rewrite Hf, take_nil.
  - discriminate.
  - by split.
Qed.

Lemma roundtrip_raises (w : World) (e : exn) :
  (roundtrip w).1 = Raise e → ∃ msg, e = StoreError msg.
Proof.
  unfold roundtrip. destruct (faults w) as [|[msg|] fs]; simpl; intros He;
    try discriminate.
  injection He as <-. by exists msg.
Qed.

(** ** The diagnostic check *)

Lemma list_collection_names_db (d : Database) (w : World) :
  db (list_collection_names d w).2 = db w
  ∧ environ (list_collection_names d w).2 = environ w.
Proof.
  unfold list_collection_names. rewrite bind_run.
  pose proof (roundtrip_db w) as Hd. pose proof (roundtrip_environ w) as He.
  destruct (roundtrip w) as [[[]|e] w']; simpl in *; done.
Qed.

Lemma probe_database_ok (r : Diagnostic) (w : World) :
  ∃ r', (probe_database r w).1 = Ok r'
    ∧ db (probe_database r w).2 = db w
    ∧ environ (probe_database r w).2 = environ w
    ∧ backend r' = backend r
    ∧ match db w with
      | None =>
          database r' = "⚠️  Available but not initialized"
          ∧ connection_status r' = connection_status r
          ∧ collections r' = collections r
      | Some d =>
          connection_status r' = "Connected"
          ∧ ((database r' = "✅ Connected & Working"
              ∧ collections r' = take 10 (map_to_list (db_collections d)).*1)
             ∨ (∃ msg, database r' = "⚠️  Connected but Error: " ++ substring 0 50 msg
                       ∧ collections r' = collections r))
      end.
Proof.
  unfold probe_database, get_db. rewrite bind_run. simpl.
  destruct (db w) as [d|] eqn:Hdb; simpl.
  - unfold try_except. rewrite bind_run.
    destruct (list_collection_names_db d w) as [Hd He].
    unfold list_collection_names in *. rewrite bind_run in *.
    destruct (roundtrip w) as [[[]|e] w'] eqn:Hr; simpl in *.
    + eexists. split; [reflexivity|].
      split; [congruence|]. split; [done|]. split; [done|].
      split; [done|]. left. by split.
    + eexists. split; [reflexivity|].
      split; [congruence|]. split; [done|]. split; [done|].
      split; [done|]. right. exists (str_exn e). by split.
  - eexists. by repeat split.
Qed.

(** C6: the diagnostic check never raises.  In every world (no handle
    configured, a store whose collection enumeration throws, a working
    store) [test_database] returns a diagnostic object whose [database]
    entry is a descriptive status string. *)
Theorem test_database_never_raises (w : World) :
  ∃ r, (test_database w).1 = Ok r
    ∧ backend r = "✅ Running"
    ∧ match db w with
      | None =>
          database r = "⚠️  Available but not initialized"
          ∧ connection_status r = "Not Connected"
      | Some d =>
          connection_status r = "Connected"
          ∧ (database r = "✅ Connected & Working"
             ∨ ∃ msg, database r = "⚠️  Connected but Error: " ++ substring 0 50 msg)
      end.
Proof.
  unfold test_database, try_except. rewrite bind_run.
  destruct (probe_database_ok initial_response w)
    as (r' & Hr & _ & _ & Hb & Hcase).
  destruct (probe_database initial_response w) as [[r0|e] w'] eqn:Hp;
    simpl in Hr; [injection Hr as ->|discriminate].
  unfold getenv. rewrite !bind_run. simpl.
  eexists. split; [reflexivity|]. simpl. split; [done|].
  destruct (db w) as [d|].
  - destruct Hcase as [Hc [[Hd _]|[msg [Hd _]]]]; split; eauto.
  - destruct Hcase as (Hd & Hc & _). by split.
Qed.

Lemma test_database_frame (w : World) :
  db (test_database w).2 = db w
  ∧ environ (test_database w).2 = environ w.
Proof.
  unfold test_database, try_except. rewrite bind_run.
  destruct (probe_database_ok initial_response w)
    as (r' & Hr & Hd & He & _).
  destruct (probe_database initial_response w) as [[r0|e] w'] eqn:Hp;
    simpl in Hr; [|discriminate].
  unfold getenv. rewrite !bind_run. simpl. by split.
Qed.

(** C9: the diagnostic check mutates no state.  After [test_database] the
    store (every collection, the job and application collections among
    them, and the handle itself) and the configuration in the environment
    are what they were. *)
Theorem test_database_read_only (w : World) :
  db (test_database w).2 = db w
  ∧ environ (test_database w).2 = environ w
  ∧ ∀ d, db w = Some d →
      ∃ d', db (test_database w).2 = Some d'
        ∧ docs_of d' "job" = docs_of d "job"
        ∧ docs_of d' "application" = docs_of d "application".
Proof.
  destruct (test_database_frame w) as [Hd He].
  split; [done|]. split; [done|].
  intros d Hdb. exists d. split; [congruence|done].
Qed.

Lemma test_database_read_only_witness :
  ∃ d', db (test_database (world_of (Some seeded_database) [Some "timed out"])).2
        = Some d'
    ∧ docs_of d' "job" = docs_of seeded_database "job"
    ∧ docs_of d' "application" = docs_of seeded_database "application".
Proof.
  apply (proj2 (proj2 (test_database_read_only
                         (world_of (Some seeded_database) [Some "timed out"])))).
  reflexivity.
Defined.

(** ** Identity serialisation and the job listing *)

Lemma serialize_doc_spec (d : doc) :
  ∃ d', serialize_doc (Some d) = Some d'
    ∧ d' !! "_id" = None
    ∧ (∀ v, d !! "_id" = Some v → d' !! "id" = Some (VStr (py_str v)))
    ∧ (d !! "_id" = None → d' = d)
    ∧ (∀ k, k ≠ "_id" → k ≠ "id" → d' !! k = d !! k).
Proof.
  unfold serialize_doc. destruct (d !! "_id") as [v|] eqn:Hid.
  - eexists. split; [reflexivity|]. split; [|split; [|split]].
    + rewrite lookup_insert_ne by done. apply lookup_delete_eq.
    + intros v' [= <-]. apply lookup_insert_eq.
    + done.
    + intros k Hk1 Hk2. rewrite lookup_insert_ne by done.
      by rewrite lookup_delete_ne.
  - exists d. by repeat split.
Qed.

Lemma get_documents_run (coll : string) (f : doc) (w : World) (d : Database) :
  db w = Some d →
  get_documents coll f w =
    match roundtrip w with
    | (Ok _, w') => (Ok (List.filter (matches f) (docs_of d coll)), w')
    | (Raise e, w') => (Raise e, w')
    end.
Proof.
  intros Hdb. unfold get_documents, get_db. rewrite bind_run. simpl.
  rewrite Hdb, bind_run. by destruct (roundtrip w) as [[[]|e] w'].
Qed.

Lemma get_documents_db (coll : string) (f : doc) (w : World) :
  db (get_documents coll f w).2 = db w.
Proof.
  destruct (db w) as [d|] eqn:Hdb.
  - rewrite (get_documents_run _ _ _ d Hdb).
    pose proof (roundtrip_db w) as Hr.
    destruct (roundtrip w) as [[[]|e] w']; simpl in *; congruence.
  - unfold get_documents, get_db. rewrite bind_run. simpl. by rewrite Hdb.
Qed.

Lemma list_jobs_inv (department type location : option string) (w : World)
    (r : list (option doc)) :
  (list_jobs department type location w).1 = Ok r →
  ∃ d, db w = Some d
    ∧ r = (λ j, serialize_doc (Some j))
            <$> List.filter (matches (build_filter_query department type location))
                  (docs_of d "job").
Proof.
  unfold list_jobs, try_except. rewrite bind_run.
  destruct (db w) as [d|] eqn:Hdb.
  - rewrite (get_documents_run _ _ _ d Hdb).
    destruct (roundtrip w) as [[[]|e] w']; simpl; [|discriminate].
    intros [= <-]. by exists d.
  - unfold get_documents, get_db. rewrite bind_run. simpl. by rewrite Hdb.
Qed.

Lemma list_jobs_healthy (department type location : option string) (w : World)
    (d : Database) :
  db w = Some d →
  healthy 1 w = true →
  (list_jobs department type location w).1 =
    Ok ((λ j, serialize_doc (Some j))
          <$> List.filter (matches (build_filter_query department type location))
                (docs_of d "job")).
Proof.
  intros Hdb Hh. unfold list_jobs, try_except. rewrite bind_run.
  rewrite (get_documents_run _ _ _ d Hdb).
  destruct (roundtrip_healthy 0 w Hh) as [Hr _].
  by destruct (roundtrip w) as [[[]|e] w']; simpl in *.
Qed.

Lemma list_jobs_db (department type location : option string) (w : World) :
  db (list_jobs department type location w).2 = db w.
Proof.
  unfold list_jobs, try_except. rewrite bind_run.
  pose proof (get_documents_db "job"
                (build_filter_query department type location) w) as Hd.
  by destruct (get_documents _ _ w) as [[jobs|e] w'].
Qed.

(** C8: identity serialisation.  [serialize_doc] drops the store-internal
    ["_id"] entry and, when the record had one, puts its string under
    ["id"], leaving every other entry alone; every record [list_jobs]
    returns has gone through it, so none carries ["_id"]. *)
Theorem serialize_doc_public_id :
  (∀ d : doc,
     ∃ d', serialize_doc (Some d) = Some d'
       ∧ d' !! "_id" = None
       ∧ (∀ v, d !! "_id" = Some v → d' !! "id" = Some (VStr (py_str v)))
       ∧ (∀ k, k ≠ "_id" → k ≠ "id" → d' !! k = d !! k))
  ∧ (∀ department type location w r x,
       (list_jobs department type location w).1 = Ok r →
       x ∈ r →
       ∃ j d', x = Some d' ∧ serialize_doc (Some j) = Some d'
         ∧ d' !! "_id" = None
         ∧ (∀ v, j !! "_id" = Some v → d' !! "id" = Some (VStr (py_str v)))).
Proof.
  split.
  - intros d. destruct (serialize_doc_spec d) as (d' & H1 & H2 & H3 & _ & H5).
    by exists d'.
  - intros department type location w r x Hr Hx.
    destruct (list_jobs_inv _ _ _ _ _ Hr) as (d & _ & ->).
    apply list_elem_of_fmap in Hx as (j & -> & _).
    destruct (serialize_doc_spec j) as (d' & H1 & H2 & H3 & _).
    by exists j, d'.
Qed.

Lemma serialize_doc_public_id_witness :
  ∃ d', serialize_doc (Some (<["_id" := VOid 1%N]> {["title" := VStr "3D Designer"]}))
          = Some d'
    ∧ d' !! "_id" = None
    ∧ d' !! "id" = Some (VStr "000000000000000000000001").
Proof.
  destruct (proj1 serialize_doc_public_id
              (<["_id" := VOid 1%N]> {["title" := VStr "3D Designer"]}))
    as (d' & H1 & H2 & H3 & _).
  exists d'. split; [exact H1|]. split; [exact H2|].
  apply (H3 (VOid 1%N)). reflexivity.
Defined.

(** ** Filters *)

Lemma matches_insert (k : string) (v : value) (fq j : doc) :
  fq !! k = None →
  matches (<[k := v]> fq) j = bool_decide (j !! k = Some v) && matches fq j.
Proof.
  intros Hk. unfold matches. rewrite <- bool_decide_and.
  apply bool_decide_ext. split.
  - intros Hsub. split.
    + apply (lookup_weaken _ _ _ _ (lookup_insert_eq fq k v) Hsub).
    + etrans; [|exact Hsub]. by apply insert_subseteq.
  - intros [Hj Hsub]. by apply insert_subseteq_l.
Qed.

Lemma matches_empty (j : doc) : matches ∅ j = true.
Proof. unfold matches. apply bool_decide_eq_true. apply map_empty_subseteq. Qed.

Lemma add_filter_lookup_ne (k k' : string) (v : option string) (fq : doc) :
  k ≠ k' → add_filter k v fq !! k' = fq !! k'.
Proof.
  intros Hne. unfold add_filter. destruct v as [s|]; [|done].
  destruct (truthy (Some s)); [|done]. by rewrite lookup_insert_ne.
Qed.

Lemma matches_add_filter (k : string) (v : option string) (fq j : doc) :
  fq !! k = None →
  matches (add_filter k v fq) j = field_ok k v j && matches fq j.
Proof.
  intros Hk. unfold add_filter, field_ok. destruct v as [s|]; [|done].
  destruct (truthy (Some s)); [|done]. by apply matches_insert.
Qed.

Lemma matches_build_filter_query (department type location : option string) (j : doc) :
  matches (build_filter_query department type location) j
  = selects department type location j.
Proof.
  unfold build_filter_query, selects.
  rewrite matches_add_filter
    by (rewrite !add_filter_lookup_ne by done; apply lookup_empty).
  rewrite matches_add_filter
    by (rewrite !add_filter_lookup_ne by done; apply lookup_empty).
  rewrite matches_add_filter by apply lookup_empty.
  rewrite matches_empty.
  destruct (field_ok "department" department j),
    (field_ok "type" type j), (field_ok "location" location j); reflexivity.
Qed.

Lemma filter_selects (department type location : option string) (jobs : list doc) :
  List.filter (matches (build_filter_query department type location)) jobs
  = List.filter (selects department type location) jobs.
Proof.
  induction jobs as [|j jobs IH]; [done|]. simpl.
  by rewrite matches_build_filter_query, IH.
Qed.

(** C4, the claim as worded fails: with [department] supplied as the empty
    string, [list_jobs] on the seeded store returns all three jobs, while
    no job's department equals the empty string. *)
Lemma list_jobs_empty_value_counterexample :
  (∃ r, (list_jobs (Some "") None None (world_of (Some seeded_database) [])).1 = Ok r
     ∧ length r = 3)
  ∧ List.filter (spec_selects (Some "") None None) (docs_of seeded_database "job") = []
  ∧ (list_jobs (Some "") None None (world_of (Some seeded_database) [])).1
    ≠ Ok ((λ j, serialize_doc (Some j))
            <$> List.filter (spec_selects (Some "") None None)
                  (docs_of seeded_database "job")).
Proof.
  split; [eexists; split; [reflexivity|]; vm_compute; reflexivity|].
  split; [vm_compute; reflexivity|].
  intros Heq.
  apply (f_equal (λ r, match r with Ok l => length l | Raise _ => 0 end)) in Heq.
  vm_compute in Heq. discriminate.
Qed.

(** C4, amended: for every choice of the parameters department, type and
    location, [list_jobs] on a reachable store returns, serialised and in
    store order, exactly the job records whose fields equal every value
    supplied non-empty (a conjunction); a parameter that is absent or the
    empty string puts no constraint, so with none supplied all jobs are
    returned. *)
Theorem list_jobs_selects (department type location : option string)
    (w : World) (d : Database) :
  db w = Some d →
  healthy 1 w = true →
  (list_jobs department type location w).1 =
    Ok ((λ j, serialize_doc (Some j))
          <$> List.filter (selects department type location) (docs_of d "job"))
  ∧ (∀ j, selects department type location j = true ↔
          (∀ s, department = Some s → s ≠ "" → j !! "department" = Some (VStr s))
          ∧ (∀ s, type = Some s → s ≠ "" → j !! "type" = Some (VStr s))
          ∧ (∀ s, location = Some s → s ≠ "" → j !! "location" = Some (VStr s))).
Proof.
  intros Hdb Hh. split.
  - rewrite <- filter_selects. by apply list_jobs_healthy.
  - intros j. unfold selects. rewrite !andb_true_iff.
    assert (Hf : ∀ k v, field_ok k v j = true ↔
                   ∀ s, v = Some s → s ≠ "" → j !! k = Some (VStr s)).
    { intros k v. unfold field_ok, truthy. destruct v as [s|].
      - destruct (String.eqb_spec s "") as [->|Hne]; simpl.
        + split; [|done]. by intros _ s' [= <-] Hs'.
        + rewrite bool_decide_eq_true. split.
          * by intros Hj s' [= <-] _.
          * intros Hall. by apply Hall.
      - split; [|done]. by intros _ s' [=]. }
    rewrite !Hf. tauto.
Qed.

Lemma list_jobs_selects_witness :
  (list_jobs (Some "Engineering") None (Some "Remote")
     (world_of (Some seeded_database) [])).1 =
    Ok ((λ j, serialize_doc (Some j))
          <$> List.filter (selects (Some "Engineering") None (Some "Remote"))
                (docs_of seeded_database "job")).
Proof.
  apply (list_jobs_selects (Some "Engineering") None (Some "Remote")
           (world_of (Some seeded_database) []) seeded_database);
    reflexivity.
Defined.



(** ** Seeding *)

Lemma create_document_run `{BaseModel A} (coll : string) (data : A) (w : World)
    (d : Database) :
  db w = Some d →
  create_document coll data w =
    match roundtrip w with
    | (Ok _, w') =>
        (Ok (str_oid (db_next_id d)),
         {| db := Some (insert_document d coll (model_dump data));
            environ := environ w'; faults := faults w' |})
    | (Raise e, w') => (Raise e, w')
    end.
Proof.
  intros Hdb. unfold create_document, get_db. rewrite bind_run. simpl.
  rewrite Hdb, bind_run. by destruct (roundtrip w) as [[[]|e] w'].
Qed.

Lemma create_document_no_db `{BaseModel A} (coll : string) (data : A) (w : World) :
  db w = None →
  create_document coll data w = (Raise (StoreError "Database not available"), w).
Proof.
  intros Hdb. unfold create_document, get_db. rewrite bind_run. simpl.
  by rewrite Hdb.
Qed.

Lemma docs_of_insert_document (d : Database) (coll : string) (data : doc) :
  docs_of (insert_document d coll data) coll
  = (docs_of d coll ++ [<["_id" := VOid (db_next_id d)]> data])%list.
Proof. unfold docs_of at 1. simpl. by rewrite lookup_insert_eq. Qed.

Lemma docs_of_insert_document_ne (d : Database) (coll coll' : string) (data : doc) :
  coll ≠ coll' →
  docs_of (insert_document d coll data) coll' = docs_of d coll'.
Proof. intros Hne. unfold docs_of. simpl. by rewrite lookup_insert_ne. Qed.

Lemma store_jobs_length (jobs : list Job) (d : Database) :
  length (docs_of (store_jobs d jobs) "job") = length (docs_of d "job") + length jobs.
Proof.
  revert d. induction jobs as [|job jobs IH]; intros d; simpl.
  - lia.
  - unfold store_jobs in *. simpl. rewrite IH, docs_of_insert_document.
    rewrite length_app. simpl. lia.
Qed.

Lemma store_jobs_other (jobs : list Job) (d : Database) (coll : string) :
  coll ≠ "job" → docs_of (store_jobs d jobs) coll = docs_of d coll.
Proof.
  intros Hne. revert d. induction jobs as [|job jobs IH]; intros d; [done|].
  unfold store_jobs in *. simpl. rewrite IH.
  by apply docs_of_insert_document_ne.
Qed.

Lemma store_jobs_bool (jobs : list Job) (d : Database) :
  db_bool (store_jobs d jobs) = db_bool d.
Proof.
  revert d. induction jobs as [|job jobs IH]; intros d; [done|].
  unfold store_jobs in *. simpl. by rewrite IH.
Qed.

(** The loop of [seed_jobs]: the jobs go in one at a time, and the first
    failing insert ends the loop with the earlier ones stored. *)
Lemma insert_all_spec (jobs : list Job) (n : nat) (w : World) (d : Database) :
  db w = Some d →
  ∃ k : nat, (k ≤ length jobs)%nat
    ∧ db (insert_all jobs n w).2 = Some (store_jobs d (take k jobs))
    ∧ (((insert_all jobs n w).1 = Ok (n + length jobs) ∧ k = length jobs)
       ∨ ((∃ msg, (insert_all jobs n w).1 = Raise (StoreError msg))
          ∧ (k < length jobs)%nat))
    ∧ (healthy (length jobs) w = true → k = length jobs).
Proof.
  revert n w d. induction jobs as [|job jobs IH]; intros n w d Hdb.
  - exists 0. simpl. split; [lia|]. split; [done|]. split; [|done].
    left. split; [|done]. f_equal. lia.
  - simpl insert_all. rewrite bind_run, (create_document_run _ _ _ d Hdb).
    pose proof (roundtrip_db w) as Hrdb.
    pose proof (roundtrip_raises w) as Hrr.
    pose proof (roundtrip_healthy (length jobs) w) as Hrh.
    destruct (roundtrip w) as [[[]|e] w1]; simpl in *.
    + set (w2 := {| db := Some (insert_document d "job" (model_dump job));
                    environ := environ w1; faults := faults w1 |}).
      destruct (IH (n + 1) w2 (insert_document d "job" (model_dump job)) eq_refl)
        as (k & Hk & Hd & Hres & Hh).
      exists (S k). split; [lia|]. split; [exact Hd|]. split.
      * destruct Hres as [[Hok ->]|[Hraise Hlt]].
        -- left. split; [|done]. rewrite Hok. f_equal. lia.
        -- right. split; [done|lia].
      * intros Hw. f_equal. apply Hh. by destruct (Hrh Hw).
    + exists 0. split; [lia|]. split; [by rewrite Hrdb|]. split.
      * right. split; [|lia]. destruct (Hrr e eq_refl) as [msg ->]. by exists msg.
      * intros Hw. by destruct (Hrh Hw).
Qed.

Lemma filter_matches_empty (l : list doc) : List.filter (matches ∅) l = l.
Proof.
  induction l as [|j l IH]; [done|]. simpl. by rewrite matches_empty, IH.
Qed.

(** [db["job"].count_documents({})] on a configured handle. *)
Lemma count_jobs_run (w : World) (d : Database) :
  db w = Some d →
  (db_getitem "job" ≫= λ collection, count_documents collection ∅) w =
    match roundtrip w with
    | (Ok _, w') => (Ok (length (docs_of d "job")), w')
    | (Raise e, w') => (Raise e, w')
    end.
Proof.
  intros Hdb. unfold db_getitem, get_db. rewrite !bind_run. simpl.
  rewrite Hdb. simpl. unfold count_documents. rewrite bind_run.
  destruct (roundtrip w) as [[[]|e] w']; [|done].
  simpl. by rewrite filter_matches_empty.
Qed.

Lemma bool_db_run (w : World) (d : Database) :
  db w = Some d → bool_db w = (db_bool d, w).
Proof.
  intros Hdb. unfold bool_db, get_db. rewrite bind_run. simpl. by rewrite Hdb.
Qed.

(** The insertion branch of [seed_jobs]. *)
Lemma insert_samples_cases (w : World) (d : Database) :
  db w = Some d →
  let run := (insert_all samples 0 ≫= λ inserted,
                mret {| inserted := inserted; message := None |}) w in
  ∃ k : nat, (k ≤ 3)%nat
    ∧ db run.2 = Some (store_jobs d (take k samples))
    ∧ ((run.1 = Ok {| inserted := 3; message := None |} ∧ k = 3)
       ∨ ((∃ msg, run.1 = Raise (StoreError msg)) ∧ (k < 3)%nat))
    ∧ (healthy 3 w = true → k = 3).
Proof.
  intros Hdb run. subst run. rewrite bind_run.
  destruct (insert_all_spec samples 0 w d Hdb) as (k & Hk & Hd & Hres & Hh).
  exists k. simpl length in *.
  destruct (insert_all samples 0 w) as [[m|e] w']; simpl in *.
  - split; [done|]. split; [done|]. split; [|done].
    destruct Hres as [[[= ->] ->]|[[msg [=]] _]]. by left.
  - split; [done|]. split; [done|]. split; [|done].
    destruct Hres as [[[=] _]|[[msg [= ->]] Hlt]]. right. split; [|done].
    by exists msg.
Qed.

(** Every outcome of a seed call on a configured handle: the job
    collection grows by the first [k] samples, and the call reports
    either a server error, three insertions, or none. *)
Lemma seed_jobs_cases (w : World) (d : Database) :
  db w = Some d →
  ∃ k : nat, (k ≤ 3)%nat
    ∧ db (seed_jobs w).2 = Some (store_jobs d (take k samples))
    ∧ (((∃ msg, (seed_jobs w).1 = Raise (HTTPException 500 msg)) ∧ (k < 3)%nat)
       ∨ ((seed_jobs w).1 = Ok {| inserted := 3; message := None |} ∧ k = 3)
       ∨ ((seed_jobs w).1 = Ok {| inserted := 0; message := Some "Jobs already exist" |}
          ∧ k = 0 ∧ docs_of d "job" ≠ [])).
Proof.
  intros Hdb. unfold seed_jobs, try_except.
  rewrite bind_run, (bool_db_run _ _ Hdb). unfold lift.
  assert (Hins : ∀ w1, db w1 = Some d →
    let run := (insert_all samples 0 ≫= λ inserted,
                  mret {| inserted := inserted; message := None |}) w1 in
    let out := match run with
               | (Ok a, w') => (Ok a, w')
               | (Raise e, w') => raise (HTTPException 500 (str_exn e)) w'
               end in
    ∃ k : nat, (k ≤ 3)%nat
      ∧ db out.2 = Some (store_jobs d (take k samples))
      ∧ (((∃ msg, out.1 = Raise (HTTPException 500 msg)) ∧ (k < 3)%nat)
         ∨ (out.1 = Ok {| inserted := 3; message := None |} ∧ k = 3)
         ∨ (out.1 = Ok {| inserted := 0; message := Some "Jobs already exist" |}
            ∧ k = 0 ∧ docs_of d "job" ≠ []))).
  { intros w1 Hdb1 run out.
    destruct (insert_samples_cases w1 d Hdb1) as (k & Hk & Hd & Hres & _).
    fold run in Hd, Hres. subst out. exists k. split; [done|].
    destruct run as [[r|e] w2]; simpl in *.
    - split; [done|]. destruct Hres as [[Hok ->]|[[msg [=]] _]]. right. by left.
    - split; [done|]. destruct Hres as [[[=] _]|[[msg [= ->]] Hlt]].
      left. split; [|done]. by eexists. }
  destruct (db_bool d) as [[|]|e0].
  - rewrite bind_run, (count_jobs_run _ _ Hdb).
    pose proof (roundtrip_db w) as Hrdb.
    destruct (roundtrip w) as [[[]|e] w1]; simpl in Hrdb.
    + destruct (docs_of d "job") as [|j js] eqn:Hdocs.
      * apply (Hins w1). congruence.
      * exists 0. split; [lia|]. simpl. split; [congruence|].
        right. right. by repeat split.
    + exists 0. split; [lia|]. simpl. split; [congruence|].
      left. split; [|lia]. by eexists.
  - rewrite bind_run. apply (Hins w Hdb).
  - exists 0. split; [lia|]. simpl. split; [done|].
    left. split; [|lia]. by eexists.
Qed.

Lemma seed_jobs_nonempty (w : World) (d : Database) :
  db w = Some d →
  db_bool d = Ok true →
  docs_of d "job" ≠ [] →
  db (seed_jobs w).2 = Some d
  ∧ (healthy 1 w = true →
     (seed_jobs w).1 = Ok {| inserted := 0; message := Some "Jobs already exist" |}).
Proof.
  intros Hdb Hb Hdocs. unfold seed_jobs, try_except.
  rewrite bind_run, (bool_db_run _ _ Hdb), Hb. unfold lift.
  rewrite bind_run, (count_jobs_run _ _ Hdb).
  pose proof (roundtrip_db w) as Hrdb.
  pose proof (roundtrip_healthy 0 w) as Hrh.
  destruct (roundtrip w) as [[[]|e] w1]; simpl in Hrdb, Hrh.
  - destruct (docs_of d "job") as [|j js]; [done|]. simpl.
    split; [congruence|done].
  - simpl. split; [congruence|]. intros Hh. by destruct (Hrh Hh).
Qed.

Lemma seed_jobs_empty (w : World) (d : Database) :
  db w = Some d →
  db_bool d = Ok true →
  docs_of d "job" = [] →
  healthy 4 w = true →
  (seed_jobs w).1 = Ok {| inserted := 3; message := None |}
  ∧ db (seed_jobs w).2 = Some (store_jobs d samples).
Proof.
  intros Hdb Hb Hdocs Hh. unfold seed_jobs, try_except.
  rewrite bind_run, (bool_db_run _ _ Hdb), Hb. unfold lift.
  rewrite bind_run, (count_jobs_run _ _ Hdb), Hdocs.
  pose proof (roundtrip_db w) as Hrdb.
  destruct (roundtrip_healthy 3 w Hh) as [Hr Hh1].
  destruct (roundtrip w) as [[[]|e] w1]; simpl in Hrdb, Hr, Hh1; [|done].
  assert (Hdb1 : db w1 = Some d) by congruence.
  destruct (insert_samples_cases w1 d Hdb1) as (k & Hk & Hd & Hres & Hk3).
  rewrite (Hk3 Hh1) in *.
  change ((if (0 <? length (@nil doc))%nat
           then mret {| inserted := 0; message := Some "Jobs already exist" |}
           else insert_all samples 0 ≫= λ inserted,
                  mret {| inserted := inserted; message := None |}) w1)
    with ((insert_all samples 0 ≫= λ inserted,
             mret {| inserted := inserted; message := None |}) w1).
  set (run := (insert_all samples 0 ≫= _) w1) in *.
  destruct run as [[r|e] w2]; simpl in *.
  - destruct Hres as [[Hok _]|[_ Hlt]]; [|lia]. by split.
  - destruct Hres as [[[=] _]|[_ Hlt]]. lia.
Qed.

Lemma docs_of_store_jobs (jobs : list Job) (d : Database) :
  docs_of (store_jobs d jobs) "job"
  = (docs_of d "job"
     ++ imap (λ i job, <["_id" := VOid (db_next_id d + N.of_nat i)%N]> (model_dump job))
          jobs)%list.
Proof.
  revert d. induction jobs as [|job jobs IH]; intros d.
  - simpl. by rewrite app_nil_r.
  - unfold store_jobs in *. simpl fold_left. rewrite IH, docs_of_insert_document.
    rewrite <- app_assoc. simpl. f_equal. f_equal.
    + by rewrite N.add_0_r.
    + apply imap_ext. intros i job' _. simpl.
      by replace (db_next_id d + 1 + N.of_nat i)%N
        with (db_next_id d + N.of_nat (S i))%N by lia.
Qed.





(** ** Submitting an application *)

Lemma roundtrip_ok_healthy (w w' : World) :
  roundtrip w = (Ok (), w') → healthy 1 w = true.
Proof.
  unfold roundtrip, healthy. by destruct (faults w) as [|[msg|] fs].
Qed.

Lemma matches_singleton (k : string) (v : value) (j : doc) :
  matches {[k := v]} j = bool_decide (j !! k = Some v).
Proof.
  rewrite <- insert_empty, matches_insert by apply lookup_empty.
  by rewrite matches_empty, andb_true_r.
Qed.

Lemma head_filter_matches (f : doc) (l : list doc) (j : doc) :
  head (List.filter (matches f) l) = Some j → j ∈ l ∧ matches f j = true.
Proof.
  intros Hh. apply head_Some_elem_of, list_elem_of_In, filter_In in Hh.
  destruct Hh as [Hin Hm]. split; [by apply list_elem_of_In|done].
Qed.

Section ApplyFacts.
Context `{Pydantic}.

(** Every outcome of [apply]. *)
Lemma apply_cases (payload : ApplyPayload) (w : World) :
  ((apply payload w).1 = Raise (HTTPException 400 "Invalid job id")
   ∧ db (apply payload w).2 = db w
   ∧ ¬ passes_lookup payload w)
  ∨ (passes_lookup payload w
     ∧ ∃ e, submitted payload = Raise e
         ∧ (apply payload w).1 = Raise (HTTPException 500 (str_exn e))
         ∧ db (apply payload w).2 = db w)
  ∨ (passes_lookup payload w
     ∧ ∃ a msg, submitted payload = Ok a
         ∧ (apply payload w).1 = Raise (HTTPException 500 msg)
         ∧ db (apply payload w).2 = db w)
  ∨ (passes_lookup payload w
     ∧ ∃ a d, submitted payload = Ok a
         ∧ db w = Some d
         ∧ (apply payload w).1
           = Ok {| status := "ok"; application_id := str_oid (db_next_id d) |}
         ∧ db (apply payload w).2
           = Some (insert_document d "application" (model_dump a))).
Proof.
  unfold passes_lookup.
  destruct (apply payload w) as [r w'] eqn:Hap. simpl.
  unfold apply in Hap.
  rewrite bind_run in Hap. unfold try_except at 1 in Hap.
  rewrite bind_run in Hap. unfold db_getitem, get_db in Hap.
  rewrite bind_run in Hap. simpl in Hap.
  destruct (db w) as [d|] eqn:Hdb; simpl in Hap.
  2: { injection Hap as <- <-. left. split; [done|]. split; [congruence|].
       by intros (d & j & [=] & _). }
  rewrite bind_run in Hap. unfold lift at 1 in Hap.
  destruct (ObjectId (payload_job_id payload)) as [o|e] eqn:Ho.
  2: { injection Hap as <- <-. left. split; [done|]. split; [congruence|].
       intros (d' & j & _ & Hj & _). unfold existing_job in Hj.
       by rewrite Ho in Hj. }
  rewrite bind_run in Hap. unfold find_one in Hap. rewrite bind_run in Hap.
  pose proof (roundtrip_db w) as Hrdb.
  pose proof (roundtrip_ok_healthy w) as Hrh.
  pose proof (roundtrip_healthy 0 w) as Hhr.
  destruct (roundtrip w) as [[[]|e] w1]; simpl in Hrdb, Hap.
  2: { injection Hap as <- <-. left. split; [done|]. split; [congruence|].
       intros (d' & j & _ & _ & Hh). by destruct (Hhr Hh). }
  destruct (head (List.filter (matches {["_id" := VOid o]}) (docs_of d "job")))
    as [j|] eqn:Hj; simpl in Hap.
  2: { injection Hap as <- <-. left. split; [done|]. split; [congruence|].
       intros (d' & j & [= <-] & Hj' & _). unfold existing_job in Hj'.
       rewrite Ho in Hj'. congruence. }
  assert (Hpass : ∃ d' j', Some d = Some d'
            ∧ existing_job d' (payload_job_id payload) = Some j'
            ∧ healthy 1 w = true).
  { exists d, j. split; [done|]. split; [|by eapply Hrh].
    unfold existing_job. by rewrite Ho. }
  assert (Hne : bool_decide (j = ∅) = false).
  { apply bool_decide_eq_false. intros ->.
    apply head_filter_matches in Hj as [_ Hm].
    rewrite matches_singleton in Hm. apply bool_decide_eq_true in Hm.
    by rewrite lookup_empty in Hm. }
  rewrite Hne in Hap. simpl in Hap. unfold try_except in Hap.
  rewrite bind_run in Hap. unfold lift in Hap.
  destruct (submitted payload) as [a|e] eqn:Ha.
  2: { injection Hap as <- <-. right. left. split; [done|]. exists e.
       split; [done|]. split; [done|]. congruence. }
  assert (Hdb1 : db w1 = Some d) by congruence.
  rewrite bind_run, (create_document_run _ _ _ d Hdb1) in Hap.
  pose proof (roundtrip_db w1) as Hrdb1.
  destruct (roundtrip w1) as [[[]|e] w2]; simpl in Hrdb1, Hap;
    injection Hap as <- <-.
  - right. right. right. split; [done|]. exists a, d. by repeat split.
  - right. right. left. split; [done|]. exists a, (str_exn e).
    split; [done|]. split; [done|]. congruence.
Qed.

Lemma Application_new_refuses_url (payload : ApplyPayload) :
  (∃ u, payload_portfolio payload = Some u ∧ HttpUrl u = None)
  ∨ (∃ u, payload_resume_url payload = Some u ∧ HttpUrl u = None) →
  ∃ msg, submitted payload = Raise (ValidationError msg).
Proof.
  unfold submitted, Application_new, validate_optional_url.
  intros [(u & -> & ->)|(u & -> & ->)].
  - destruct (validate_email _ _); by eexists.
  - destruct (validate_email _ _); destruct (payload_portfolio payload) as [p|];
      try destruct (HttpUrl p); by eexists.
Qed.

(** C1: the job lookup of [apply].  A malformed [job_id] is answered
    with 400 "Invalid job id".  A well-formed [job_id] that matches no
    stored job is answered with the same 400, not with 404: the 404
    raised inside the [try] block is caught by its own
    [except Exception] and replaced. *)
Theorem apply_unknown_job_is_400 (payload : ApplyPayload) (w : World)
    (d : Database) :
  db w = Some d →
  (∀ e, ObjectId (payload_job_id payload) = Raise e →
     (apply payload w).1 = Raise (HTTPException 400 "Invalid job id")
     ∧ db (apply payload w).2 = db w)
  ∧ (∀ o, ObjectId (payload_job_id payload) = Ok o →
       (∀ j, j ∈ docs_of d "job" → j !! "_id" ≠ Some (VOid o)) →
       (apply payload w).1 = Raise (HTTPException 400 "Invalid job id")
       ∧ db (apply payload w).2 = db w).
Proof.
  intros Hdb.
  assert (Hno : existing_job d (payload_job_id payload) = None →
            (apply payload w).1 = Raise (HTTPException 400 "Invalid job id")
            ∧ db (apply payload w).2 = db w).
  { intros Hnone.
    destruct (apply_cases payload w)
      as [(H1 & H2 & _)|[[Hp _]|[[Hp _]|[Hp _]]]]; [done|..];
      destruct Hp as (d' & j & Hd' & Hj & _); congruence. }
  split.
  - intros e He. apply Hno. unfold existing_job. by rewrite He.
  - intros o Ho Hmiss. apply Hno. unfold existing_job. rewrite Ho.
    destruct (head _) as [j|] eqn:Hj; [|done].
    apply head_filter_matches in Hj as [Hin Hm].
    rewrite matches_singleton in Hm. apply bool_decide_eq_true in Hm.
    by destruct (Hmiss j Hin).
Qed.

(** C2: a payload that references a stored job but fails the validation
    of the [Application] record (a portfolio or resume URL that is not a
    URL) is answered with 500, a server error: the validation runs
    inside the [try] block whose [except Exception] turns every
    exception into a 500. *)
Theorem apply_invalid_url_is_500 (payload : ApplyPayload) (w : World)
    (d : Database) (j : doc) :
  db w = Some d →
  existing_job d (payload_job_id payload) = Some j →
  healthy 1 w = true →
  (∃ u, payload_portfolio payload = Some u ∧ HttpUrl u = None)
  ∨ (∃ u, payload_resume_url payload = Some u ∧ HttpUrl u = None) →
  ∃ msg, (apply payload w).1 = Raise (HTTPException 500 msg)
    ∧ submitted payload = Raise (ValidationError msg)
    ∧ db (apply payload w).2 = db w.
Proof.
  intros Hdb Hj Hh Hurl.
  destruct (Application_new_refuses_url payload Hurl) as [msg Hmsg].
  exists msg.
  destruct (apply_cases payload w)
    as [(_ & _ & Hnp)|[(_ & e & He & H1 & H2)
       |[(_ & a & m & Ha & _)|(_ & a & d' & Ha & _)]]].
  - destruct Hnp. by exists d, j.
  - rewrite Hmsg in He. injection He as <-. by repeat split.
  - congruence.
  - congruence.
Qed.

(** [list_jobs], [apply] and the diagnostic check leave the store as it
    was when they fail. *)
Lemma apply_failure_db (payload : ApplyPayload) (w : World) (e : exn) :
  (apply payload w).1 = Raise e → db (apply payload w).2 = db w.
Proof.
  intros He.
  destruct (apply_cases payload w)
    as [(_ & H2 & _)|[(_ & e' & _ & _ & H2)
       |[(_ & a & m & _ & _ & H2)|(_ & a & d' & _ & _ & H1 & _)]]];
    try done.
  congruence.
Qed.

End ApplyFacts.

Lemma apply_unknown_job_is_400_witness :
  (apply (H := sample_pydantic)
     (sample_payload "000000000000000000000009" "https://ada.example.org")
     (world_of (Some seeded_database) [])).1
  = Raise (HTTPException 400 "Invalid job id").
Proof.
  apply (proj2 (apply_unknown_job_is_400 (H := sample_pydantic)
                  (sample_payload "000000000000000000000009" "https://ada.example.org")
                  (world_of (Some seeded_database) []) seeded_database eq_refl)
           9%N).
  - reflexivity.
  - intros j Hj. apply list_elem_of_In in Hj. vm_compute in Hj.
    destruct Hj as [<-|[<-|[<-|[]]]]; vm_compute; discriminate.
Defined.

Lemma apply_invalid_url_is_500_witness :
  ∃ msg,
    (apply (H := sample_pydantic)
       (sample_payload "000000000000000000000001" "not a url")
       (world_of (Some seeded_database) [])).1
    = Raise (HTTPException 500 msg)
    ∧ submitted (H := sample_pydantic)
        (sample_payload "000000000000000000000001" "not a url")
      = Raise (ValidationError msg)
    ∧ db (apply (H := sample_pydantic)
            (sample_payload "000000000000000000000001" "not a url")
            (world_of (Some seeded_database) [])).2
      = db (world_of (Some seeded_database) []).
Proof.
  eapply (apply_invalid_url_is_500 (H := sample_pydantic)
            (sample_payload "000000000000000000000001" "not a url")
            (world_of (Some seeded_database) []) seeded_database).
  - reflexivity.
  - reflexivity.
  - reflexivity.
  - left. exists "not a url". split; reflexivity.
Defined.

(** ** Failure and the store *)

Lemma seed_jobs_no_db (w : World) :
  db w = None → db (seed_jobs w).2 = None.
Proof.
  intros Hdb. unfold seed_jobs, try_except.
  rewrite bind_run. unfold bool_db, get_db. rewrite bind_run. simpl.
  rewrite Hdb. simpl. rewrite bind_run. simpl.
  rewrite bind_run, bind_run.
  by rewrite (create_document_no_db _ _ _ Hdb).
Qed.




(** * Further properties of the handlers *)

(** ** [serialize_doc] *)

(** X1: [serialize_doc] is idempotent: serialising an already serialised
    record (or [None]) changes nothing. *)
Theorem serialize_doc_idempotent (d : option doc) :
  serialize_doc (serialize_doc d) = serialize_doc d.
Proof.
  destruct d as [d|]; [|done]. unfold serialize_doc.
  destruct (d !! "_id") as [v|] eqn:Hid.
  - by rewrite lookup_insert_ne, lookup_delete_eq by done.
  - by rewrite Hid.
Qed.

(** X2: the keys of a serialised record.  With an ["_id"] entry the keys
    are those of the record without ["_id"], plus ["id"] (an ["id"] the
    record already had is kept as a key and its value replaced); without
    an ["_id"] entry the record is returned as it is, keys and values. *)
Theorem serialize_doc_keys (d : doc) :
  ∃ d', serialize_doc (Some d) = Some d'
    ∧ (is_Some (d !! "_id") → dom d' = {["id"]} ∪ (dom d ∖ {["_id"]}))
    ∧ (d !! "_id" = None → d' = d).
Proof.
  unfold serialize_doc. destruct (d !! "_id") as [v|] eqn:Hid.
  - eexists. split; [reflexivity|]. split; [|done].
    intros _. by rewrite dom_insert_L, dom_delete_L.
  - exists d. split; [done|]. split; [|done]. by intros [v [=]].
Qed.

Lemma serialize_doc_keys_witness :
  ∃ d', serialize_doc
          (Some (<["_id" := VOid 7%N]> (<["id" := VStr "legacy"]> ∅))) = Some d'
    ∧ dom d' = {["id"]} ∪ (dom (<["_id" := VOid 7%N]> (<["id" := VStr "legacy"]> ∅)
                                : doc) ∖ {["_id"]}).
Proof.
  destruct (serialize_doc_keys (<["_id" := VOid 7%N]> (<["id" := VStr "legacy"]> ∅)))
    as (d' & H1 & H2 & _).
  exists d'. split; [exact H1|]. apply H2. eexists. reflexivity.
Defined.

(** ** Identities as strings *)

Lemma hex_value_digit (m : N) : (m < 16)%N → hex_value (hex_digit m) = Some m.
Proof.
  intros Hm. destruct m as [|p]; [reflexivity|].
  do 4 (destruct p as [p|p|]; try reflexivity); lia.
Qed.

Lemma length_hex_digits (k : nat) (n : N) (acc : string) :
  String.length (hex_digits k n acc) = (k + String.length acc)%nat.
Proof.
  revert n acc. induction k as [|k IH]; intros n acc; [done|].
  simpl. rewrite IH. simpl. lia.
Qed.

Lemma parse_hex_digits (k : nat) (n : N) (acc : string) (a : N) :
  parse_hex (hex_digits k n acc) a
  = parse_hex acc (a * 16 ^ N.of_nat k + n mod 16 ^ N.of_nat k)%N.
Proof.
  revert n acc a. induction k as [|k IH]; intros n acc a.
  - simpl. f_equal. rewrite N.mod_1_r. lia.
  - simpl hex_digits. rewrite IH. simpl parse_hex.
    rewrite hex_value_digit by (apply N.mod_lt; lia).
    f_equal. rewrite Nat2N.inj_succ, N.pow_succ_r'.
    rewrite (N.Div0.mod_mul_r n 16 (16 ^ N.of_nat k)). lia.
Qed.

(** [ObjectId(str(o))] is [o] for every 12-byte identity. *)
Lemma ObjectId_str_oid (o : oid) : (o < 2 ^ 96)%N → ObjectId (str_oid o) = Ok o.
Proof.
  intros Ho. unfold ObjectId, str_oid.
  rewrite length_hex_digits, parse_hex_digits. simpl String.length.
  change (24 + 0 =? 24)%nat with true. cbv iota. simpl parse_hex.
  rewrite N.mul_0_l, N.add_0_l, N.mod_small; [done|].
  by change (16 ^ N.of_nat 24)%N with (2 ^ 96)%N.
Qed.

Lemma head_filter_is_Some (f : doc) (l : list doc) (j : doc) :
  j ∈ l → matches f j = true →
  ∃ j', head (List.filter (matches f) l) = Some j'.
Proof.
  intros Hin Hm.
  assert (Hf : In j (List.filter (matches f) l)).
  { apply filter_In. split; [by apply list_elem_of_In|done]. }
  destruct (List.filter (matches f) l) as [|j' l']; [done|]. by exists j'.
Qed.

(** ** [apply], beyond the job lookup *)

Section ApplyOutcomes.
Context `{Pydantic}.

(** [apply] once the job lookup has let the request through and the
    record has been validated: one more round-trip, the insert. *)
Lemma apply_after_lookup (payload : ApplyPayload) (w : World) (d : Database)
    (j : doc) (a : Application) :
  db w = Some d →
  existing_job d (payload_job_id payload) = Some j →
  healthy 1 w = true →
  submitted payload = Ok a →
  apply payload w =
    match roundtrip (roundtrip w).2 with
    | (Ok _, w2) =>
        (Ok {| status := "ok"; application_id := str_oid (db_next_id d) |},
         {| db := Some (insert_document d "application" (model_dump a));
            environ := environ w2; faults := faults w2 |})
    | (Raise e, w2) => (Raise (HTTPException 500 (str_exn e)), w2)
    end.
Proof.
  intros Hdb Hj Hh Ha. unfold existing_job in Hj.
  destruct (ObjectId (payload_job_id payload)) as [o|e] eqn:Ho; [|done].
  unfold apply. rewrite bind_run. unfold try_except at 1. rewrite bind_run.
  unfold db_getitem, get_db. rewrite bind_run. simpl. rewrite Hdb. simpl.
  rewrite bind_run. unfold lift at 1. rewrite Ho.
  rewrite bind_run. unfold find_one. rewrite bind_run.
  pose proof (roundtrip_db w) as Hrdb.
  destruct (roundtrip_healthy 0 w Hh) as [Hr _].
  destruct (roundtrip w) as [[[]|e] w1]; simpl in Hrdb, Hr; [|done].
  simpl. rewrite Hj. simpl.
  assert (Hne : bool_decide (j = ∅) = false).
  { apply bool_decide_eq_false. intros ->.
    apply head_filter_matches in Hj as [_ Hm].
    rewrite matches_singleton in Hm. apply bool_decide_eq_true in Hm.
    by rewrite lookup_empty in Hm. }
  rewrite Hne. simpl. unfold try_except. rewrite bind_run. unfold lift.
  rewrite Ha.
  assert (Hdb1 : db w1 = Some d) by congruence.
  rewrite bind_run, (create_document_run _ _ _ d Hdb1).
  by destruct (roundtrip w1) as [[[]|e] w2].
Qed.

Lemma submitted_fields (payload : ApplyPayload) (a : Application) :
  submitted payload = Ok a →
  job_id a = payload_job_id payload
  ∧ name a = payload_name payload
  ∧ cover_letter a = payload_cover_letter payload
  ∧ EmailStr (payload_email payload) = Some (email a)
  ∧ portfolio a = payload_portfolio payload ≫= HttpUrl
  ∧ resume_url a = payload_resume_url payload ≫= HttpUrl.
Proof.
  unfold submitted, Application_new, validate_email, validate_optional_url.
  destruct (EmailStr (payload_email payload)) as [e|];
    destruct (payload_portfolio payload) as [p|]; simpl;
    try destruct (HttpUrl p) as [p'|];
    destruct (payload_resume_url payload) as [r|]; simpl;
    try destruct (HttpUrl r) as [r'|];
    intros [= <-]; by repeat split.
Qed.


(** X4: the answers of [apply].  Whatever the payload and the world,
    [apply] returns status "ok", or raises 400 "Invalid job id", or raises
    a 500; it never raises the 404 "Job not found" its source mentions,
    nor any exception other than an [HTTPException]. *)
Theorem apply_status_codes (payload : ApplyPayload) (w : World) :
  ((∃ r, (apply payload w).1 = Ok r ∧ status r = "ok")
   ∨ (apply payload w).1 = Raise (HTTPException 400 "Invalid job id")
   ∨ (∃ msg, (apply payload w).1 = Raise (HTTPException 500 msg)))
  ∧ ∀ detail, (apply payload w).1 ≠ Raise (HTTPException 404 detail).
Proof.
  destruct (apply_cases payload w)
    as [(H1 & _)|[(_ & e & _ & H1 & _)
       |[(_ & a & m & _ & H1 & _)|(_ & a & d & _ & _ & H1 & _)]]];
    rewrite H1; split; try (intros detail; discriminate).
  - right. by left.
  - right. right. by eexists.
  - right. right. by eexists.
  - left. by eexists.
Qed.

(** X5: failures of the environment during the job lookup are reported
    as a client error.  With no store handle configured, or when the
    store fails while looking the job up, [apply] raises 400 "Invalid job
    id" (not a 500), whatever the payload, and writes nothing. *)
Theorem apply_lookup_failure_is_400 (payload : ApplyPayload) (w : World) :
  db w = None ∨ healthy 1 w = false →
  (apply payload w).1 = Raise (HTTPException 400 "Invalid job id")
  ∧ db (apply payload w).2 = db w.
Proof.
  intros Hbad.
  destruct (apply_cases payload w)
    as [(H1 & H2 & _)|[[Hp _]|[[Hp _]|[Hp _]]]]; [done|..];
    destruct Hp as (d & j & Hd & _ & Hh); destruct Hbad; congruence.
Qed.

(** X6: a store failure while the application is persisted.  When the
    lookup and the validation have succeeded and the insert fails with
    text [msg], [apply] raises a 500 whose detail is [msg], and the store
    is left as it was. *)
Theorem apply_insert_failure_is_500 (payload : ApplyPayload) (w : World)
    (d : Database) (j : doc) (a : Application) (msg : string)
    (fs : list (option string)) :
  db w = Some d →
  existing_job d (payload_job_id payload) = Some j →
  submitted payload = Ok a →
  faults w = None :: Some msg :: fs →
  (apply payload w).1 = Raise (HTTPException 500 msg)
  ∧ db (apply payload w).2 = Some d.
Proof.
  intros Hdb Hj Ha Hf.
  assert (Hh : healthy 1 w = true) by (unfold healthy; by rewrite Hf).
  rewrite (apply_after_lookup payload w d j a Hdb Hj Hh Ha).
  assert (Hr : roundtrip w
               = (Ok (), {| db := db w; environ := environ w;
                            faults := Some msg :: fs |})).
  { unfold roundtrip. by rewrite Hf. }
  rewrite Hr. unfold roundtrip. simpl. by split.
Qed.

(** X7: an identity listed by [list_jobs] is accepted by [apply].  For a
    stored job whose ["_id"] is a 12-byte identity, the serialised record
    carries under ["id"] a 24-digit string that [ObjectId] reads back as
    the same identity; submitted as [job_id] it passes the job lookup, so
    [apply] does not answer 400. *)
Theorem listed_id_is_accepted (payload : ApplyPayload) (w : World)
    (d : Database) (j : doc) (o : oid) :
  db w = Some d →
  j ∈ docs_of d "job" →
  j !! "_id" = Some (VOid o) →
  (o < 2 ^ 96)%N →
  healthy 1 w = true →
  (∃ j', serialize_doc (Some j) = Some j'
     ∧ j' !! "id" = Some (VStr (str_oid o)))
  ∧ String.length (str_oid o) = 24
  ∧ ObjectId (str_oid o) = Ok o
  ∧ (payload_job_id payload = str_oid o →
     passes_lookup payload w
     ∧ (apply payload w).1 ≠ Raise (HTTPException 400 "Invalid job id")).
Proof.
  intros Hdb Hin Hid Ho Hh.
  split; [|split; [|split]].
  - unfold serialize_doc. rewrite Hid. eexists. split; [reflexivity|].
    apply lookup_insert_eq.
  - unfold str_oid. by rewrite length_hex_digits.
  - by apply ObjectId_str_oid.
  - intros Hjob.
    assert (Hpass : passes_lookup payload w).
    { destruct (head_filter_is_Some {["_id" := VOid o]} (docs_of d "job") j Hin)
        as [j' Hj'].
      { rewrite matches_singleton. by apply bool_decide_eq_true. }
      exists d, j'. split; [done|]. split; [|done].
      unfold existing_job. by rewrite Hjob, ObjectId_str_oid. }
    split; [done|].
    destruct (apply_cases payload w)
      as [(_ & _ & Hnp)|[(_ & e & _ & H1 & _)
         |[(_ & a & m & _ & H1 & _)|(_ & a & d' & _ & _ & H1 & _)]]];
      [done|..]; by rewrite H1.
Qed.

End ApplyOutcomes.


Lemma apply_lookup_failure_is_400_witness :
  (apply (H := sample_pydantic)
     (sample_payload "000000000000000000000002" "https://ada.example.org")
     (world_of None [])).1
  = Raise (HTTPException 400 "Invalid job id").
Proof.
  apply (apply_lookup_failure_is_400 (H := sample_pydantic)
           (sample_payload "000000000000000000000002" "https://ada.example.org")
           (world_of None [])).
  left. reflexivity.
Defined.

Lemma apply_insert_failure_is_500_witness :
  (apply (H := sample_pydantic)
     (sample_payload "000000000000000000000002" "https://ada.example.org")
     (world_of (Some seeded_database) [None; Some "connection reset"])).1
  = Raise (HTTPException 500 "connection reset").
Proof.
  eapply (apply_insert_failure_is_500 (H := sample_pydantic)
            (sample_payload "000000000000000000000002" "https://ada.example.org")
            (world_of (Some seeded_database) [None; Some "connection reset"])
            seeded_database);
    reflexivity.
Defined.

Lemma listed_id_is_accepted_witness :
  passes_lookup
    (sample_payload "000000000000000000000001" "https://ada.example.org")
    (world_of (Some seeded_database) []).
Proof.
  eapply (listed_id_is_accepted (H := sample_pydantic)
            (sample_payload "000000000000000000000001" "https://ada.example.org")
            (world_of (Some seeded_database) []) seeded_database _ 1%N).
  - reflexivity.
  - vm_compute. left.
  - reflexivity.
  - reflexivity.
  - reflexivity.
  - reflexivity.
Defined.

(** ** [list_jobs], beyond the selection *)

Lemma List_filter_sublist {A} (P : A → bool) (l : list A) :
  List.filter P l `sublist_of` l.
Proof.
  induction l as [|x l IH]; simpl; [constructor|].
  destruct (P x); by constructor.
Qed.

Lemma list_jobs_ok_healthy (department type location : option string) (w : World)
    (r : list (option doc)) :
  (list_jobs department type location w).1 = Ok r → healthy 1 w = true.
Proof.
  intros Hr. destruct (list_jobs_inv _ _ _ _ _ Hr) as (d & Hdb & _).
  unfold list_jobs, try_except in Hr. rewrite bind_run in Hr.
  rewrite (get_documents_run _ _ _ d Hdb) in Hr.
  destruct (roundtrip w) as [[[]|e] w'] eqn:Hrt; [|done].
  by eapply roundtrip_ok_healthy.
Qed.

(** X8: filters only narrow the listing.  Whenever [list_jobs] answers a
    query, the unfiltered query on the same store answers too, with one
    record per stored job, and the filtered answer is a sublist of it:
    the same records in the same order, some left out. *)
Theorem list_jobs_narrows (department type location : option string) (w : World)
    (r : list (option doc)) :
  (list_jobs department type location w).1 = Ok r →
  ∃ d all, db w = Some d
    ∧ (list_jobs None None None w).1 = Ok all
    ∧ all = (λ j, serialize_doc (Some j)) <$> docs_of d "job"
    ∧ r `sublist_of` all
    ∧ (length r ≤ length (docs_of d "job"))%nat.
Proof.
  intros Hr. pose proof (list_jobs_ok_healthy _ _ _ _ _ Hr) as Hh.
  destruct (list_jobs_inv _ _ _ _ _ Hr) as (d & Hdb & ->).
  exists d. eexists. split; [done|].
  rewrite (list_jobs_healthy None None None w d Hdb Hh).
  change (build_filter_query None None None) with (∅ : doc).
  rewrite filter_matches_empty.
  split; [reflexivity|]. split; [reflexivity|]. split.
  - apply fmap_sublist, List_filter_sublist.
  - rewrite length_fmap. apply sublist_length, List_filter_sublist.
Qed.

Lemma list_jobs_narrows_witness :
  ∃ d all, db (world_of (Some seeded_database) []) = Some d
    ∧ (list_jobs None None None (world_of (Some seeded_database) [])).1 = Ok all
    ∧ all = (λ j, serialize_doc (Some j)) <$> docs_of d "job"
    ∧ ((λ j, serialize_doc (Some j))
         <$> List.filter (selects None None (Some "Remote"))
               (docs_of seeded_database "job")) `sublist_of` all
    ∧ (length ((λ j, serialize_doc (Some j))
                 <$> List.filter (selects None None (Some "Remote"))
                       (docs_of seeded_database "job"))
       ≤ length (docs_of d "job"))%nat.
Proof.
  apply (list_jobs_narrows None None (Some "Remote")
           (world_of (Some seeded_database) [])).
  vm_compute. reflexivity.
Defined.

(** X9: the failures of [list_jobs].  It returns a list or raises a 500,
    never anything else; when the store fails with text [msg] the 500
    carries [msg] as its detail. *)
Theorem list_jobs_status_codes (department type location : option string)
    (w : World) :
  ((∃ r, (list_jobs department type location w).1 = Ok r)
   ∨ (∃ msg, (list_jobs department type location w).1
             = Raise (HTTPException 500 msg)))
  ∧ ∀ d msg fs, db w = Some d → faults w = Some msg :: fs →
      (list_jobs department type location w).1 = Raise (HTTPException 500 msg).
Proof.
  split.
  - unfold list_jobs, try_except. rewrite bind_run.
    destruct (get_documents _ _ w) as [[jobs|e] w']; simpl.
    + left. by eexists.
    + right. by eexists.
  - intros d msg fs Hdb Hf. unfold list_jobs, try_except. rewrite bind_run.
    rewrite (get_documents_run _ _ _ d Hdb). unfold roundtrip. by rewrite Hf.
Qed.

Lemma list_jobs_status_codes_witness :
  (list_jobs (Some "Design") None None
     (world_of (Some seeded_database) [Some "timed out"])).1
  = Raise (HTTPException 500 "timed out").
Proof.
  apply (proj2 (list_jobs_status_codes (Some "Design") None None
                  (world_of (Some seeded_database) [Some "timed out"]))
           seeded_database "timed out" []);
    reflexivity.
Defined.

(** ** [seed_jobs], beyond idempotence *)

Lemma seed_jobs_no_db_result (w : World) :
  db w = None → ∃ msg, (seed_jobs w).1 = Raise (HTTPException 500 msg).
Proof.
  intros Hdb. unfold seed_jobs, try_except.
  rewrite bind_run. unfold bool_db, get_db. rewrite bind_run. simpl.
  rewrite Hdb. simpl. rewrite bind_run. simpl.
  rewrite bind_run, bind_run.
  rewrite (create_document_no_db _ _ _ Hdb). by eexists.
Qed.

(** X10: the answers of [seed_jobs].  In every world a seed call returns
    [inserted = 3] without a message, or [inserted = 0] with the message
    "Jobs already exist", or raises a 500: it never reports one or two
    insertions, and never raises anything but a 500. *)
Theorem seed_jobs_outcomes (w : World) :
  (seed_jobs w).1 = Ok {| inserted := 3; message := None |}
  ∨ (seed_jobs w).1 = Ok {| inserted := 0; message := Some "Jobs already exist" |}
  ∨ ∃ msg, (seed_jobs w).1 = Raise (HTTPException 500 msg).
Proof.
  destruct (db w) as [d|] eqn:Hdb.
  - destruct (seed_jobs_cases w d Hdb) as (k & _ & _ & Hres).
    destruct Hres as [[Hmsg _]|[[Hok _]|[Hok _]]]; auto.
  - right. right. by apply seed_jobs_no_db_result.
Qed.

(** X11: a handle that refuses truth testing.  [seed_jobs] tests the
    handle with [if db]; when that test raises, the call raises a 500
    with the exception's text before counting or inserting anything,
    whatever the job collection holds. *)
Theorem seed_jobs_truth_test_raises (w : World) (d : Database) (e : exn) :
  db w = Some d →
  db_bool d = Raise e →
  seed_jobs w = (Raise (HTTPException 500 (str_exn e)), w).
Proof.
  intros Hdb Hb. unfold seed_jobs, try_except.
  by rewrite bind_run, (bool_db_run _ _ Hdb), Hb.
Qed.

Lemma seed_jobs_truth_test_raises_witness :
  seed_jobs (world_of (Some strict_database) [])
  = (Raise (HTTPException 500 "no truth value"),
     world_of (Some strict_database) []).
Proof.
  apply (seed_jobs_truth_test_raises (world_of (Some strict_database) [])
           strict_database (NotImplementedError "no truth value"));
    reflexivity.
Defined.

(** X12: [seed_jobs] only appends.  Whatever the outcome, the job
    collection afterwards is the one before followed by at most three new
    records, and every other collection is what it was: no stored record
    is removed or rewritten. *)
Theorem seed_jobs_only_appends (w : World) (d : Database) :
  db w = Some d →
  ∃ d' new, db (seed_jobs w).2 = Some d'
    ∧ docs_of d' "job" = (docs_of d "job" ++ new)%list
    ∧ (length new ≤ 3)%nat
    ∧ ∀ coll, coll ≠ "job" → docs_of d' coll = docs_of d coll.
Proof.
  intros Hdb. destruct (seed_jobs_cases w d Hdb) as (k & Hk & Hd & _).
  eexists. eexists. split; [exact Hd|]. split; [apply docs_of_store_jobs|].
  split.
  - rewrite length_imap, length_take. lia.
  - intros coll Hne. by apply store_jobs_other.
Qed.

Lemma seed_jobs_only_appends_witness :
  ∃ d' new, db (seed_jobs flaky_world).2 = Some d'
    ∧ docs_of d' "job" = (docs_of empty_database "job" ++ new)%list
    ∧ (length new ≤ 3)%nat
    ∧ ∀ coll, coll ≠ "job" → docs_of d' coll = docs_of empty_database coll.
Proof. apply (seed_jobs_only_appends flaky_world empty_database). reflexivity. Defined.

Lemma Job_model_no_identity (job : Job) : model_dump job !! "_id" = None.
Proof.
  unfold model_dump, Job_model. rewrite !lookup_insert_ne by done.
  apply lookup_empty.
Qed.



(** ** [test_database], beyond never raising *)

Lemma length_substring_0 (n : nat) (s : string) :
  (String.length (substring 0 n s) ≤ n)%nat.
Proof.
  revert s. induction n as [|n IH]; intros s.
  - destruct s; simpl; lia.
  - destruct s as [|c s]; simpl; [lia|]. specialize (IH s). lia.
Qed.

(** X14: the configuration entries of the diagnostic.  Whatever the
    handle and the store do, [database_url] and [database_name] of the
    answer only tell whether the environment variables [DATABASE_URL] and
    [DATABASE_NAME] are set to a non-empty value; the database's name and
    the "Configured" text written earlier in the function never reach the
    caller. *)
Theorem test_database_env_entries (w : World) :
  ∃ r, (test_database w).1 = Ok r
    ∧ database_url r
      = Some (if truthy (environ w !! "DATABASE_URL") then "✅ Set" else "❌ Not Set")
    ∧ database_name r
      = Some (if truthy (environ w !! "DATABASE_NAME") then "✅ Set" else "❌ Not Set").
Proof.
  unfold test_database, try_except. rewrite bind_run.
  destruct (probe_database_ok initial_response w) as (r' & Hr & _ & He & _).
  destruct (probe_database initial_response w) as [[r0|e] w'] eqn:Hp;
    simpl in Hr, He; [|discriminate].
  unfold getenv. rewrite !bind_run. simpl. rewrite He.
  eexists. by repeat split.
Qed.

